(** * The [git] plugin: periodic synchronisation of a directory with a remote

    A shallow embedding of [plugin/git]: the command runner of
    [commands.go] and the repository state machine ([Git], [Repo], [Pull],
    [pull], [clone], [checkoutLatestTag], [Prepare], ...).

    Everything outside the Go process is explicit state, the [World]:
    the wall clock, the outcome of every external process, the directory
    tree seen by [ioutil.ReadDir], [os.Stat] and [os.MkdirAll], and the
    chronological [trace] of what the code did to it (processes started,
    directories created, log lines).  A function of [commands.go] is a
    state transformer over [World]; a method with receiver [r *Repo] is a
    state transformer over the receiver and the [World]. *)

From Stdlib Require Import ZArith List Bool String Ascii Lia.
Import ListNotations.
Open Scope string_scope.
Open Scope Z_scope.

(* ================================================================== *)
(** ** Go strings: the helpers of [strings] and [bytes] the package uses *)

Module GoString.

(** White space of [bytes.TrimSpace] among single bytes:
    tab, line feed, vertical tab, form feed, carriage return, space. *)
Definition isSpace (c : ascii) : bool :=
  let n := nat_of_ascii c in
  ((9 <=? n)%nat && (n <=? 13)%nat) || (n =? 32)%nat.

Fixpoint trimLeft (s : string) : string :=
  match s with
  | EmptyString => EmptyString
  | String c s' => if isSpace c then trimLeft s' else s
  end.

Fixpoint trimRight (s : string) : string :=
  match s with
  | EmptyString => EmptyString
  | String c s' =>
      match trimRight s' with
      | EmptyString => if isSpace c then EmptyString else String c EmptyString
      | t => String c t
      end
  end.

(** [bytes.TrimSpace] / [strings.TrimSpace], on the six white-space bytes
    of ASCII.  Go also trims the white space of Unicode that takes more
    than one byte in UTF-8 (U+0085, U+00A0, U+2028, ...); this function
    leaves those bytes in place.  The general lemmas below do not look
    inside it, and the processes of the scenarios print ASCII only. *)
Definition TrimSpace (s : string) : string := trimRight (trimLeft s).

(** [strings.HasSuffix]:
    [len(s) >= len(suffix) && s[len(s)-len(suffix):] == suffix]. *)
Definition HasSuffix (s suffix : string) : bool :=
  (String.length suffix <=? String.length s)%nat
  && String.eqb
       (substring (String.length s - String.length suffix)
                  (String.length suffix) s)
       suffix.

(** [strings.TrimSuffix]:
    [if HasSuffix(s, suffix) { return s[:len(s)-len(suffix)] }; return s]. *)
Definition TrimSuffix (s suffix : string) : string :=
  if HasSuffix s suffix
  then substring 0 (String.length s - String.length suffix) s
  else s.

End GoString.
Import GoString.

(* ================================================================== *)
(** ** Constants of the package *)

Module Consts.
(** Number of retries if git pull fails. *)
Definition numRetries : nat := 3.
(** Variable for latest tag. *)
Definition latestTag : string := "{latest}".
End Consts.

(* ================================================================== *)
(** ** Time: [time.Time], [time.Duration], [time.Since] *)

Module GoTime.

(** A [time.Duration] is an int64 count of nanoseconds. *)
Definition Duration := Z.
Definition Second : Duration := 1000000000.
Definition maxDuration : Duration := 2 ^ 63 - 1.
Definition minDuration : Duration := - 2 ^ 63.

(** A [time.Time], as nanoseconds since the Unix epoch.  The zero value
    of the type is January 1, year 1, 00:00 UTC. *)
Definition Time := Z.
Definition zeroTime : Time := -62135596800 * Second.

(** [t.Sub(u)]: the difference, saturated to the range of a Duration. *)
Definition Sub (t u : Time) : Duration :=
  let d := t - u in
  if maxDuration <? d then maxDuration
  else if d <? minDuration then minDuration
  else d.

End GoTime.
Import GoTime.

(* ================================================================== *)
(** ** Errors

    A Go [error] value is [option error]: [None] is [nil]. *)

Inductive error : Type :=
| ErrStart (command : string)          (* exec: the binary could not be started *)
| ErrExit (code : Z)                   (* *exec.ExitError: non-zero exit *)
| ErrOS (op path : string)             (* *os.PathError *)
| ErrSplit (command : string)          (* caddy.SplitCommandAndArgs *)
| ErrNoTags (url : string)             (* "no tags found for repo: %v" *)
| ErrRetrieveURL (path : string) (cause : error)
                                       (* "cannot retrieve repo url for %v: %s" *)
| ErrAnotherRepo (repoURL path : string)
                                       (* "another git repo '%v' exists at %v" *)
| ErrNotEmpty (path : string).         (* "cannot git clone into %v, directory not empty" *)

(* ================================================================== *)
(** ** The world outside the process *)

(** One external command: [exec.Command(command, args...)] with [cmd.Dir]. *)
Record Invocation : Type := mkInvocation {
  command : string;
  args : list string;
  dir : string
}.

(** What happens to a process the code starts. *)
Inductive ProcOutcome : Type :=
| StartFailed                            (* cmd.Start fails: no such binary, bad dir *)
| Exited (code : Z) (stdout : string).   (* ran to completion *)

Record ProcResult : Type := mkProcResult {
  outcome : ProcOutcome;
  elapsed : Duration                     (* wall-clock time the call blocks for *)
}.

(** An entry of a directory listing ([os.FileInfo]). *)
Record FileInfo : Type := mkFileInfo {
  Name : string;
  IsDir : bool
}.

Inductive Node : Type :=
| Absent
| RegularFile
| Directory (entries : list FileInfo).

Inductive LogEntry : Type :=
| LogWarning (e : error)                 (* log.Warning(err) *)
| LogNoNewChanges                        (* log.Info("No new changes") *)
| LogPulled (url : string)               (* log.Infof("pulled: %v", r.URL) *)
| LogLatestTagError (e : error)          (* log.Errorf("Error retrieving latest tag: %s", err) *)
| LogCheckoutDone (commitHash : string). (* log.Infof("commit %v checkout done", ...) *)

Inductive Event : Type :=
| EvExec (inv : Invocation)
| EvMkdirAll (path : string)
| EvLog (l : LogEntry).

Record World : Type := mkWorld {
  clock : Time;                                   (* what time.Now() reads *)
  oracle : nat -> Invocation -> ProcResult;       (* fate of the n-th process *)
  nexec : nat;                                    (* processes started so far *)
  fs : string -> Node;                            (* the directory tree, by path *)
  trace : list Event                              (* oldest first *)
}.

(* ================================================================== *)
(** ** State transformers *)

Definition ST (S A : Type) : Type := S -> A * S.

Definition ret {S A : Type} (a : A) : ST S A := fun s => (a, s).

Definition bind {S A B : Type} (c : ST S A) (k : A -> ST S B) : ST S B :=
  fun s => let (a, s') := c s in k a s'.

Declare Scope go_scope.
Delimit Scope go_scope with go.
Notation "x <- c ;; k" := (bind c (fun x => k))
  (at level 61, c at next level, right associativity) : go_scope.
Notation "' pat <- c ;; k" := (bind c (fun x => match x with pat => k end))
  (at level 61, pat pattern, c at next level, right associativity) : go_scope.
Notation "c ;; k" := (bind c (fun _ => k))
  (at level 61, right associativity) : go_scope.
Open Scope go_scope.

(** Code that only touches the world. *)
Definition IO (A : Type) : Type := ST World A.

Definition emit (ev : Event) : IO unit := fun w =>
  (tt, mkWorld (clock w) (oracle w) (nexec w) (fs w) (trace w ++ [ev])).

Definition log (l : LogEntry) : IO unit := emit (EvLog l).

(** [time.Now()]. *)
Definition time_Now : IO Time := fun w => (clock w, w).

(** [time.Since(t)] is [time.Now().Sub(t)]. *)
Definition time_Since (t : Time) : IO Duration :=
  now <- time_Now ;; ret (Sub now t).

(** Start a process and block until it is over. *)
Definition spawn (inv : Invocation) : IO ProcOutcome := fun w =>
  let res := oracle w (nexec w) inv in
  (outcome res,
   mkWorld (clock w + elapsed res) (oracle w) (S (nexec w)) (fs w)
           (trace w ++ [EvExec inv])).

(** [ioutil.ReadDir]. *)
Definition ioutil_ReadDir (path : string) : IO (list FileInfo * option error) :=
  fun w =>
    match fs w path with
    | Directory es => ((es, None), w)
    | _ => (([], Some (ErrOS "open" path)), w)
    end.

(** [os.Stat]; only the error is used. *)
Definition os_Stat (path : string) : IO (option error) := fun w =>
  match fs w path with
  | Absent => (Some (ErrOS "stat" path), w)
  | _ => (None, w)
  end.

(** [os.MkdirAll]: nothing to do for a directory, an error for a file, and
    a new empty directory otherwise (the parents it creates on the way are
    not tracked). *)
Definition os_MkdirAll (path : string) : IO (option error) := fun w =>
  let w' := snd (emit (EvMkdirAll path) w) in
  match fs w path with
  | Directory _ => (None, w')
  | RegularFile => (Some (ErrOS "mkdir" path), w')
  | Absent =>
      (None,
       mkWorld (clock w') (oracle w') (nexec w')
               (fun p => if String.eqb p path then Directory [] else fs w' p)
               (trace w'))
  end.

(* ================================================================== *)
(** ** commands.go *)

(** [runCmd] is a helper function to run commands.  The process writes to
    [os.Stderr]; the caller only sees whether it failed.
<<
    if err := cmd.Start(); err != nil { return err }
    return cmd.Wait()
>> *)
Definition runCmd (command : string) (args : list string) (dir : string)
  : IO (option error) :=
  o <- spawn (mkInvocation command args dir) ;;
  match o with
  | StartFailed => ret (Some (ErrStart command))
  | Exited code _ => if code =? 0 then ret None else ret (Some (ErrExit code))
  end.

(** [cmd.Output()]: the captured standard output, and an error when the
    process could not be started or did not exit with status zero. *)
Definition Cmd_Output (inv : Invocation) : IO (string * option error) :=
  o <- spawn inv ;;
  match o with
  | StartFailed => ret ("", Some (ErrStart (command inv)))
  | Exited code out =>
      if code =? 0 then ret (out, None) else ret (out, Some (ErrExit code))
  end.

(** [runCmdOutput] is a helper function to run commands and return output.
<<
    var err error
    if output, err := cmd.Output(); err == nil {
        return string(bytes.TrimSpace(output)), nil
    }
    return "", err
>>
    The short declaration in the [if] header declares a fresh [err], in
    scope in the [if] statement only; the final [return] names the outer
    one, which nothing has assigned. *)
Definition runCmdOutput (command : string) (args : list string) (dir : string)
  : IO (string * option error) :=
  let err : option error := None in
  '(output, err_if) <- Cmd_Output (mkInvocation command args dir) ;;
  match err_if with
  | None => ret (TrimSpace output, None)
  | Some _ => ret ("", err)
  end.

(* ================================================================== *)
(** ** caddy.SplitCommandAndArgs

    The function belongs to the [caddy] library.  Outside Windows it
    splits the command line the way a shell does and fails when there is
    no word at all.  The model covers what the command lines of this
    package contain: blanks between words, and quoted stretches, whose
    quotes are dropped. *)

Module Caddy.

Definition dquote : ascii := ascii_of_nat 34.
Definition squote : ascii := ascii_of_nat 39.

Definition isQuote (c : ascii) : bool :=
  Ascii.eqb c dquote || Ascii.eqb c squote.

Definition push (word : option string) (c : ascii) : option string :=
  match word with
  | None => Some (String c EmptyString)
  | Some w => Some (w ++ String c EmptyString)
  end.

(** [word] is the word being read, [q] the quote that is open. *)
Fixpoint words (s : string) (word : option string) (q : option ascii)
  : option (list string) :=
  match s with
  | EmptyString =>
      match q with
      | Some _ => None
      | None => Some (match word with Some w => [w] | None => [] end)
      end
  | String c s' =>
      match q with
      | Some qc =>
          if Ascii.eqb c qc then words s' word None
          else words s' (push word c) q
      | None =>
          if isQuote c then
            words s' (match word with None => Some EmptyString | _ => word end)
                  (Some c)
          else if isSpace c then
            match word with
            | Some w => option_map (cons w) (words s' None None)
            | None => words s' None None
            end
          else words s' (push word c) None
      end
  end.

Definition SplitCommandAndArgs (command : string)
  : string * list string * option error :=
  match words command None None with
  | Some (cmd :: args) => (cmd, args, None)
  | _ => ("", [], Some (ErrSplit command))
  end.

End Caddy.

(* ================================================================== *)
(** ** Repo *)

(** Repo is the structure that holds required information of a git
    repository.  The embedded [sync.Mutex] has no field here: calls of
    this sequential model never overlap, so [r.Lock()] always finds the
    mutex free and the deferred [r.Unlock()] frees it again. *)
Record Repo : Type := mkRepo {
  URL : string;              (* Repository URL *)
  Path : string;             (* Directory to pull to *)
  Branch : string;           (* Git branch *)
  Interval : Duration;       (* Interval between pulls *)
  CloneArgs : list string;   (* Additional cli args to pass to git clone *)
  PullArgs : list string;    (* Additional cli args to pass to git pull *)
  pulled : bool;             (* true if there was a successful pull *)
  lastPull : Time;           (* time of the last successful pull *)
  lastCommit : string;       (* hash for the most recent commit *)
  latestTag : string         (* latest tag name *)
}.

(** A method with receiver [r *Repo]. *)
Definition Method (A : Type) : Type := ST (Repo * World) A.

Definition io {A : Type} (c : IO A) : Method A := fun s =>
  let (a, w) := c (snd s) in (a, (fst s, w)).

Definition self : Method Repo := fun s => (fst s, s).

Definition assign (f : Repo -> Repo) : Method unit := fun s =>
  (tt, (f (fst s), snd s)).

Definition set_pulled (b : bool) (r : Repo) : Repo :=
  mkRepo (URL r) (Path r) (Branch r) (Interval r) (CloneArgs r) (PullArgs r)
         b (lastPull r) (lastCommit r) (latestTag r).

Definition set_lastPull (t : Time) (r : Repo) : Repo :=
  mkRepo (URL r) (Path r) (Branch r) (Interval r) (CloneArgs r) (PullArgs r)
         (pulled r) t (lastCommit r) (latestTag r).

Definition set_lastCommit (c : string) (r : Repo) : Repo :=
  mkRepo (URL r) (Path r) (Branch r) (Interval r) (CloneArgs r) (PullArgs r)
         (pulled r) (lastPull r) c (latestTag r).

Definition set_latestTag (t : string) (r : Repo) : Repo :=
  mkRepo (URL r) (Path r) (Branch r) (Interval r) (CloneArgs r) (PullArgs r)
         (pulled r) (lastPull r) (lastCommit r) t.

(** [gitCmd] performs a git command. *)
Definition gitCmd (params : list string) (dir : string)
  : Method (option error) :=
  io (runCmd "git" params dir).

Definition log_command : string :=
  "git" ++ " --no-pager log -n 1 --pretty=format:"
        ++ String Caddy.dquote "%H" ++ String Caddy.dquote "".

Definition describe_command : string :=
  "git" ++ " describe origin --abbrev=0 --tags".

(** [mostRecentCommit] gets the hash of the most recent commit to the
    repository. *)
Definition mostRecentCommit : Method (string * option error) :=
  r <- self ;;
  let '(c, args, err) := Caddy.SplitCommandAndArgs log_command in
  match err with
  | Some e => ret ("", Some e)
  | None => io (runCmdOutput c args (Path r))
  end.

(** [fetchLatestTag] retrieves the most recent tag in the repository. *)
Definition fetchLatestTag : Method (string * option error) :=
  r <- self ;;
  let params := ["fetch"; "origin"; "--tags"] in
  err <- gitCmd params (Path r) ;;
  match err with
  | Some e => ret ("", Some e)
  | None =>
      let '(c, args, err) := Caddy.SplitCommandAndArgs describe_command in
      match err with
      | Some e => ret ("", Some e)
      | None => io (runCmdOutput c args (Path r))
      end
  end.

(** [originURL] retrieves remote origin url for the git repository at path. *)
Definition originURL : Method (string * option error) :=
  r <- self ;;
  err <- io (os_Stat (Path r)) ;;
  match err with
  | Some e => ret ("", Some e)
  | None =>
      let args := ["config"; "--get"; "remote.origin.url"] in
      io (runCmdOutput "git" args (Path r))
  end.

(** [checkoutLatestTag] checks out the latest tag of the repository.
<<
    tag, err := r.fetchLatestTag()
    if err != nil { return err }
    if tag == "" {
        return fmt.Errorf("no tags found for repo: %v", r.URL)
    } else if tag == r.latestTag {
        return nil
    }
    params := []string{"checkout", "tags/" + tag}
    if err = r.gitCmd(params, r.Path); err == nil {
        r.latestTag = tag
        r.lastCommit, err = r.mostRecentCommit()
    } else {
        return err
    }
    return nil
>> *)
Definition checkoutLatestTag : Method (option error) :=
  '(tag, err) <- fetchLatestTag ;;
  match err with
  | Some e => ret (Some e)
  | None =>
      r <- self ;;
      if String.eqb tag "" then ret (Some (ErrNoTags (URL r)))
      else if String.eqb tag (latestTag r) then ret None
      else
        let params := ["checkout"; "tags/" ++ tag] in
        err <- gitCmd params (Path r) ;;
        match err with
        | None =>
            assign (set_latestTag tag) ;;
            '(c, _) <- mostRecentCommit ;;
            assign (set_lastCommit c) ;;
            ret None
        | Some e => ret (Some e)
        end
  end.

(** [checkoutCommit] checks out the specified commitHash. *)
Definition checkoutCommit (commitHash : string) : Method (option error) :=
  r <- self ;;
  let params := ["checkout"; commitHash] in
  err <- gitCmd params (Path r) ;;
  match err with
  | None => io (log (LogCheckoutDone commitHash)) ;; ret err
  | Some _ => ret err
  end.

(** [clone] performs git clone.
<<
    var err error
    if err = r.gitCmd(params, ""); err == nil {
        r.pulled = true
        r.lastPull = time.Now()
        log.Infof("pulled: %v", r.URL)
        r.lastCommit, err = r.mostRecentCommit()
        if tagMode {
            if err := r.checkoutLatestTag(); err != nil {
                log.Errorf("Error retrieving latest tag: %s", err)
            }
            return err
        }
    }
    return err
>>
    The [err] of the inner [if] header is a variable of that [if] alone:
    the [return err] after it returns what [mostRecentCommit] gave. *)
Definition clone : Method (option error) :=
  r <- self ;;
  let tagMode := String.eqb (Branch r) Consts.latestTag in
  let params :=
    if tagMode
    then "clone" :: (CloneArgs r ++ [URL r; Path r])%list
    else (["clone"; "-b"; Branch r] ++ (CloneArgs r ++ [URL r; Path r]))%list in
  err <- gitCmd params "" ;;
  match err with
  | None =>
      assign (set_pulled true) ;;
      now <- io time_Now ;;
      assign (set_lastPull now) ;;
      io (log (LogPulled (URL r))) ;;
      '(c, err) <- mostRecentCommit ;;
      assign (set_lastCommit c) ;;
      if tagMode then
        err_if <- checkoutLatestTag ;;
        match err_if with
        | Some e => io (log (LogLatestTagError e)) ;; ret err
        | None => ret err
        end
      else ret err
  | Some _ => ret err
  end.

(** [pull] performs git pull, or git clone if repository does not exist. *)
Definition pull : Method (option error) :=
  r <- self ;;
  if negb (pulled r) then clone
  else if String.eqb (Branch r) Consts.latestTag then
    err <- checkoutLatestTag ;;
    match err with
    | Some e => io (log (LogLatestTagError e)) ;; ret (Some e)
    | None => ret None
    end
  else
    let params := "pull" :: (PullArgs r ++ ["origin"; Branch r])%list in
    err <- gitCmd params (Path r) ;;
    match err with
    | None =>
        assign (set_pulled true) ;;
        now <- io time_Now ;;
        assign (set_lastPull now) ;;
        io (log (LogPulled (URL r))) ;;
        '(c, err) <- mostRecentCommit ;;
        assign (set_lastCommit c) ;;
        ret err
    | Some _ => ret err
    end.

(** The loop of [Pull]:
<<
    for i := 0; i < numRetries; i++ {
        if err = r.pull(); err == nil { break }
        log.Warning(err)
    }
>>
    [n] counts the iterations that are left, [err] is the variable the
    loop assigns. *)
Fixpoint attempts (n : nat) (err : option error) : Method (option error) :=
  match n with
  | O => ret err
  | S n' =>
      err <- pull ;;
      match err with
      | None => ret None
      | Some e => io (log (LogWarning e)) ;; attempts n' (Some e)
      end
  end.

(** [Pull] attempts a git pull.  It retries at most numRetries times if
    error occurs.  The body runs between [r.Lock()] and the deferred
    [r.Unlock()]. *)
Definition Pull : Method (option error) :=
  r <- self ;;
  since <- io (time_Since (lastPull r)) ;;
  if since <? 5 * Second then ret None
  else
    let lastCommit0 := lastCommit r in
    err <- attempts Consts.numRetries None ;;
    match err with
    | Some _ => ret err
    | None =>
        r' <- self ;;
        (if String.eqb (lastCommit r') lastCommit0
         then io (log LogNoNewChanges) else ret tt) ;;
        ret None
    end.

(** [Prepare] prepares for a git pull and validates the configured
    directory. *)
Definition Prepare : Method (option error) :=
  r <- self ;;
  '(fs, err) <- io (ioutil_ReadDir (Path r)) ;;
  if (match err with Some _ => true | None => false end)
     || (List.length fs =? 0)%nat
  then io (os_MkdirAll (Path r))
  else
    let isGit := existsb (fun f => IsDir f && String.eqb (Name f) ".git") fs in
    if isGit then
      '(repoURL, err) <- originURL ;;
      match err with
      | None =>
          if String.eqb (TrimSuffix repoURL ".git") (TrimSuffix (URL r) ".git")
          then assign (set_pulled true) ;; ret None
          else ret (Some (ErrAnotherRepo repoURL (Path r)))
      | Some e => ret (Some (ErrRetrieveURL (Path r) e))
      end
    else ret (Some (ErrNotEmpty (Path r))).

(* ================================================================== *)
(** ** Git *)

(** A [*Repo]: [None] is the nil pointer. *)
Definition RepoPtr : Type := option Repo.

(** Git represent multiple repositories: [type Git []*Repo]. *)
Definition Git : Type := list RepoPtr.

(** The result of an expression that may panic at run time. *)
Inductive Run (A : Type) : Type :=
| Returns (a : A)
| Panics (msg : string).
Arguments Returns {A} a.
Arguments Panics {A} msg.

(** [len(g)], an [int]. *)
Definition len (g : Git) : Z := Z.of_nat (List.length g).

(** The index expression [g[i]] on a slice: a run-time panic unless
    [0 <= i < len(g)]. *)
Definition index (g : Git) (i : Z) : Run RepoPtr :=
  if (0 <=? i) && (i <? len g)
  then Returns (nth (Z.to_nat i) g None)
  else Panics "index out of range".

(** Repo retrieves repository at i or nil if not found.
<<
    if i < len(g) { return g[i] }
    return nil
>> *)
Definition Git_Repo (g : Git) (i : Z) : Run RepoPtr :=
  if i <? len g then index g i else Returns None.

(* ================================================================== *)
(** ** Observations on a run *)

(** The world after the process [inv] has run. *)
Definition ran (inv : Invocation) (w : World) : World := snd (spawn inv w).

(** Time passing between two calls. *)
Definition advance (d : Duration) : IO unit := fun w =>
  (tt, mkWorld (clock w + d) (oracle w) (nexec w) (fs w) (trace w)).

Definition later (d : Duration) (w : World) : World := snd (advance d w).

(** The world after a line has been logged. *)
Definition logged (l : LogEntry) (w : World) : World := snd (log l w).

(** The outcome the next process will have, if it is [inv]. *)
Definition next (w : World) (inv : Invocation) : ProcOutcome :=
  outcome (oracle w (nexec w) inv).

Definition succeeds (o : ProcOutcome) : bool :=
  match o with
  | StartFailed => false
  | Exited code _ => code =? 0
  end.

Definition printed (o : ProcOutcome) : string :=
  match o with
  | StartFailed => ""
  | Exited _ out => out
  end.

(** What [runCmdOutput] hands back as output for an outcome. *)
Definition captured (o : ProcOutcome) : string :=
  if succeeds o then TrimSpace (printed o) else "".

(** The error of [cmd.Start] / [cmd.Wait] / [cmd.Output] for an outcome. *)
Definition exit_error (command : string) (o : ProcOutcome) : option error :=
  match o with
  | StartFailed => Some (ErrStart command)
  | Exited code _ => if code =? 0 then None else Some (ErrExit code)
  end.

(** The commands the methods run. *)
Definition git (params : list string) (dir : string) : Invocation :=
  mkInvocation "git" params dir.

Definition log_inv (r : Repo) : Invocation :=
  git ["--no-pager"; "log"; "-n"; "1"; "--pretty=format:%H"] (Path r).

Definition fetch_inv (r : Repo) : Invocation :=
  git ["fetch"; "origin"; "--tags"] (Path r).

Definition describe_inv (r : Repo) : Invocation :=
  git ["describe"; "origin"; "--abbrev=0"; "--tags"] (Path r).

Definition origin_inv (r : Repo) : Invocation :=
  git ["config"; "--get"; "remote.origin.url"] (Path r).

Definition checkout_tag_inv (r : Repo) (tag : string) : Invocation :=
  git ["checkout"; "tags/" ++ tag] (Path r).

Definition pull_inv (r : Repo) : Invocation :=
  git ("pull" :: (PullArgs r ++ ["origin"; Branch r])%list) (Path r).

Definition clone_inv (r : Repo) : Invocation :=
  git (if String.eqb (Branch r) Consts.latestTag
       then "clone" :: (CloneArgs r ++ [URL r; Path r])%list
       else (["clone"; "-b"; Branch r] ++ (CloneArgs r ++ [URL r; Path r]))%list)
      "".

(** The receiver once [clone], or the [git pull] of [pull], has run its
    command with success at time [now] and read the hash [commit]. *)
Definition cloned (r : Repo) (now : Time) (commit : string) : Repo :=
  set_lastCommit commit (set_lastPull now (set_pulled true r)).

(** The first command of a convergence step on an initialized repository. *)
Definition first_sync_inv (r : Repo) : Invocation :=
  if String.eqb (Branch r) Consts.latestTag then fetch_inv r else pull_inv r.

Definition subcommand (inv : Invocation) : string := hd "" (args inv).

Definition is_clone (ev : Event) : bool :=
  match ev with
  | EvExec inv => String.eqb (subcommand inv) "clone"
  | _ => false
  end.

Definition is_checkout (ev : Event) : bool :=
  match ev with
  | EvExec inv => String.eqb (subcommand inv) "checkout"
  | _ => false
  end.

Definition is_exec (ev : Event) : bool :=
  match ev with
  | EvExec _ => true
  | _ => false
  end.

Definition is_mkdir (ev : Event) : bool :=
  match ev with
  | EvMkdirAll _ => true
  | _ => false
  end.

Definition no_clone (evs : list Event) : Prop :=
  Forall (fun ev => is_clone ev = false) evs.

(** Every process the world will ever run exits with status zero. *)
Definition all_succeed (w : World) : Prop :=
  forall n inv, succeeds (outcome (oracle w n inv)) = true.

(** [git describe origin --abbrev=0 --tags] in the directory of [r] prints
    the tag [T], whenever it is run. *)
Definition latest_remote_tag (w : World) (r : Repo) (T : string) : Prop :=
  forall n, TrimSpace (printed (outcome (oracle w n (describe_inv r)))) = T.

(** How many checkout commands a trace holds. *)
Definition checkouts (t : list Event) : nat := List.length (filter is_checkout t).

(** How many external commands a trace holds. *)
Definition execs (t : list Event) : nat := List.length (filter is_exec t).

(** The errors of [Prepare] for a path it cannot adopt. *)
Definition is_configuration_error (e : error) : bool :=
  match e with
  | ErrRetrieveURL _ _ | ErrAnotherRepo _ _ | ErrNotEmpty _ => true
  | _ => false
  end.

Definition is_dot_git (f : FileInfo) : bool :=
  IsDir f && String.eqb (Name f) ".git".

(** *** Sequences of operations on one repository *)

Inductive Op : Type :=
| OpPrepare                          (* r.Prepare() *)
| OpPull                             (* r.Pull(), a synchronization call *)
| OpAttempt                          (* r.pull(), one synchronization attempt *)
| OpCheckoutCommit (commitHash : string)
| OpElapse (d : Duration).           (* time passes *)

Definition is_sync (op : Op) : bool :=
  match op with
  | OpPull | OpAttempt => true
  | _ => false
  end.

Definition perform (op : Op) : Method (option error) :=
  match op with
  | OpPrepare => Prepare
  | OpPull => Pull
  | OpAttempt => pull
  | OpCheckoutCommit h => checkoutCommit h
  | OpElapse d => io (advance d) ;; ret None
  end.

(** One line of the history of a run: the operation, what it returned,
    and the last-pull timestamp before and after it. *)
Record Line : Type := mkLine {
  line_op : Op;
  line_result : option error;
  line_before : Time;
  line_after : Time
}.

Fixpoint history (ops : list Op) (s : Repo * World) : list Line :=
  match ops with
  | [] => []
  | op :: ops' =>
      let '(e, s') := perform op s in
      mkLine op e (lastPull (fst s)) (lastPull (fst s')) :: history ops' s'
  end.

(* ================================================================== *)
(** ** Scenarios *)

Module Scenario.

(** Processes end as the list says, in order, each after [took]; a
    process beyond the list cannot be started. *)
Definition script (l : list ProcOutcome) (took : Duration)
  : nat -> Invocation -> ProcResult :=
  fun n _ => mkProcResult (nth n l StartFailed) took.

Definition start : Time := 1700000000 * Second.

Definition empty_disk : string -> Node := fun _ => Absent.

Definition world (l : list ProcOutcome) : World :=
  mkWorld start (script l (Second / 10)) 0 empty_disk [].

(** The repository of the configuration
    [git host/org/zones /zones { branch ...; interval 60 }],
    as [parse] builds it. *)
Definition fresh (branch : string) : Repo :=
  mkRepo "host/org/zones" "/zones" branch (60 * Second) [] []
         false zeroTime "" "".

(** The same repository after a restart over its working copy. *)
Definition adopted (branch : string) : Repo := set_pulled true (fresh branch).

(** A disk whose [/zones] holds a working copy and a zone file. *)
Definition disk_with_copy : string -> Node := fun p =>
  if String.eqb p "/zones"
  then Directory [mkFileInfo ".git" true; mkFileInfo "db.example.org" false]
  else Absent.

(** A disk whose [/zones] holds zone files only. *)
Definition disk_with_files : string -> Node := fun p =>
  if String.eqb p "/zones"
  then Directory [mkFileInfo "db.example.org" false]
  else Absent.

Definition world_on (disk : string -> Node) (l : list ProcOutcome) : World :=
  mkWorld start (script l (Second / 10)) 0 disk [].

Definition newline : string := String (ascii_of_nat 10) "".

Definition zones : string := "/zones".

(** *** git is not installed: no process can be started *)

Definition offline : World := world [].

Definition no_git : error := ErrStart "git".

Definition offline1 : World := snd (snd (pull (fresh "main", offline))).
Definition offline2 : World :=
  snd (snd (pull (fresh "main", logged (LogWarning no_git) offline1))).
Definition offline3 : World :=
  snd (snd (pull (fresh "main", logged (LogWarning no_git) offline2))).

(** The state a failed first call leaves, and the same one second later. *)
Definition after_failed_call : Repo * World :=
  snd (Pull (fresh "main", offline)).
Definition one_second_later : Repo * World :=
  (fst after_failed_call, later Second (snd after_failed_call)).

(** *** a first call that clones, and the state one second after it *)

Definition first_clone : option error * (Repo * World) :=
  Pull (fresh "main", world [Exited 0 ""; Exited 0 ("0a1b2c3" ++ newline)]).
Definition cloned_repo : Repo := fst (snd first_clone).
Definition a_second_after : World := later Second (snd (snd first_clone)).

(** *** a remote without tags, cloned in tag-tracking mode:
    clone, log, fetch succeed; [git describe] has nothing to describe *)

Definition no_tags_clone : World :=
  world [Exited 0 ""; Exited 0 ("0a1b2c3" ++ newline); Exited 0 "";
         Exited 128 ""].

(** The same remote seen from an initialized repository: every attempt
    fetches with success and finds nothing to describe. *)
Definition no_tags_pull : World :=
  world [Exited 0 ""; Exited 128 "";
         Exited 0 ""; Exited 128 "";
         Exited 0 ""; Exited 128 ""].

(** *** a remote whose latest tag stays v1.0, and a first checkout that
    fails once: fetch, describe, checkout (exit 1); then fetch, describe,
    checkout, log; and for the second call fetch, describe *)

Definition flaky_checkout : World :=
  world [Exited 0 ""; Exited 0 ("v1.0" ++ newline); Exited 1 "";
         Exited 0 ""; Exited 0 ("v1.0" ++ newline); Exited 0 "";
         Exited 0 ("0a1b2c3" ++ newline);
         Exited 0 ""; Exited 0 ("v1.0" ++ newline)].

Definition tag_call_1 : option error * (Repo * World) :=
  Pull (adopted Consts.latestTag, flaky_checkout).
Definition tag_call_2 : option error * (Repo * World) :=
  Pull (fst (snd tag_call_1), later (10 * Second) (snd (snd tag_call_1))).

(** *** a remote that always answers: every command exits with status
    zero, describe prints v1.0 and log prints a hash *)

Definition healthy : nat -> Invocation -> ProcResult := fun _ inv =>
  mkProcResult
    (if String.eqb (subcommand inv) "describe"
     then Exited 0 ("v1.0" ++ newline)
     else if String.eqb (subcommand inv) "--no-pager"
          then Exited 0 ("0a1b2c3" ++ newline)
          else Exited 0 "")
    (Second / 10).

Definition healthy_world : World := mkWorld start healthy 0 empty_disk [].

Definition tagged (tag : string) : Repo :=
  set_latestTag tag (adopted Consts.latestTag).

Definition healthy_call_1 : option error * (Repo * World) :=
  Pull (fresh Consts.latestTag, healthy_world).
Definition healthy_call_2 : option error * (Repo * World) :=
  Pull (fst (snd healthy_call_1),
        later (10 * Second) (snd (snd healthy_call_1))).

Definition healthy_call_3 : option error * (Repo * World) :=
  Pull (fst (snd healthy_call_2),
        later (10 * Second) (snd (snd healthy_call_2))).

(** Tag-tracking over an adopted working copy: two calls, the second one
    second after the first has returned. *)
Definition quick_call_1 : option error * (Repo * World) :=
  Pull (adopted Consts.latestTag, healthy_world).
Definition quick_call_2 : option error * (Repo * World) :=
  Pull (fst (snd quick_call_1), later Second (snd (snd quick_call_1))).

(** *** restart over a working copy *)

Definition same_origin : World :=
  world_on disk_with_copy [Exited 0 ("host/org/zones.git" ++ newline)].

Definition other_origin : World :=
  world_on disk_with_copy [Exited 0 ("host/org/other.git" ++ newline)].

Definition not_a_copy : World := world_on disk_with_files [].

(** *** a working copy whose origin cannot be read *)

(** [git config --get remote.origin.url] finds no origin and exits with
    status 1, printing nothing. *)
Definition no_origin : World := world_on disk_with_copy [Exited 1 ""].

(** [git] is not installed. *)
Definition no_git_on_copy : World := world_on disk_with_copy [].

(** The repository of the configuration [git .git /zones], as [parse]
    builds it: branch master, interval one hour. *)
Definition dot_git_url : Repo :=
  mkRepo ".git" "/zones" "master" (3600 * Second) [] []
         false zeroTime "" "".

(** *** branch mode over an adopted working copy: two calls, the second
    one second after the first has returned *)

Definition branch_call_1 : option error * (Repo * World) :=
  Pull (adopted "main", healthy_world).
Definition branch_call_2 : option error * (Repo * World) :=
  Pull (fst (snd branch_call_1), later Second (snd (snd branch_call_1))).

End Scenario.

(* ================================================================== *)
(** ** Running the primitives

    Each function of the model is first turned into an equation that
    gives its result and final state in terms of the outcomes of the
    processes it starts. *)

Open Scope list_scope.

Ltac red_go := cbv beta iota zeta; cbn [fst snd].

Ltac split_outcome :=
  match goal with
  | |- context [match exit_error ?c ?o with _ => _ end] =>
      destruct (exit_error c o); red_go
  | |- context [if String.eqb ?a ?b then _ else _] =>
      destruct (String.eqb a b) eqn:?; red_go
  end.

Lemma bind_run {S A B} (c : ST S A) (k : A -> ST S B) s :
  bind c k s = k (fst (c s)) (snd (c s)).
Proof. unfold bind. destruct (c s); reflexivity. Qed.

Lemma io_run {A} (c : IO A) r w :
  io c (r, w) = (fst (c w), (r, snd (c w))).
Proof. unfold io; simpl. destruct (c w); reflexivity. Qed.

Lemma runCmd_run c a d w :
  runCmd c a d w
  = (exit_error c (next w (mkInvocation c a d)), ran (mkInvocation c a d) w).
Proof.
  unfold runCmd, ran, next. rewrite bind_run. unfold spawn at 1 3; red_go.
  destruct (outcome _) as [|code out]; [reflexivity|].
  cbn [exit_error]. destruct (code =? 0); reflexivity.
Qed.

Lemma runCmdOutput_run c a d w :
  runCmdOutput c a d w
  = ((captured (next w (mkInvocation c a d)), None),
     ran (mkInvocation c a d) w).
Proof.
  unfold runCmdOutput, Cmd_Output, ran, next, captured.
  rewrite !bind_run. unfold spawn at 1 2 3 5; red_go.
  destruct (outcome _) as [|code out]; [reflexivity|].
  cbn [succeeds printed]. destruct (code =? 0); reflexivity.
Qed.

Lemma gitCmd_run p d r w :
  gitCmd p d (r, w) = (exit_error "git" (next w (git p d)), (r, ran (git p d) w)).
Proof. unfold gitCmd. rewrite io_run, runCmd_run. reflexivity. Qed.

Lemma mostRecentCommit_run r w :
  mostRecentCommit (r, w)
  = ((captured (next w (log_inv r)), None), (r, ran (log_inv r) w)).
Proof.
  unfold mostRecentCommit. rewrite bind_run. unfold self; red_go.
  change (Caddy.SplitCommandAndArgs log_command)
    with ("git", ["--no-pager"; "log"; "-n"; "1"; "--pretty=format:%H"],
          @None error).
  red_go. rewrite io_run, runCmdOutput_run. reflexivity.
Qed.

Lemma fetchLatestTag_run r w :
  fetchLatestTag (r, w)
  = match exit_error "git" (next w (fetch_inv r)) with
    | Some e => (("", Some e), (r, ran (fetch_inv r) w))
    | None =>
        ((captured (next (ran (fetch_inv r) w) (describe_inv r)), None),
         (r, ran (describe_inv r) (ran (fetch_inv r) w)))
    end.
Proof.
  unfold fetchLatestTag. rewrite bind_run. unfold self; red_go.
  rewrite bind_run, gitCmd_run; red_go. fold (fetch_inv r).
  destruct (exit_error _ _); [reflexivity|].
  change (Caddy.SplitCommandAndArgs describe_command)
    with ("git", ["describe"; "origin"; "--abbrev=0"; "--tags"], @None error).
  red_go. rewrite io_run, runCmdOutput_run. reflexivity.
Qed.

Lemma ret_run {S A} (a : A) (s : S) : ret a s = (a, s).
Proof. reflexivity. Qed.

Lemma self_run r w : self (r, w) = (r, (r, w)).
Proof. reflexivity. Qed.

Lemma assign_run f r w : assign f (r, w) = (tt, (f r, w)).
Proof. reflexivity. Qed.

Lemma log_run l r w : io (log l) (r, w) = (tt, (r, logged l w)).
Proof. rewrite io_run. reflexivity. Qed.

Lemma now_run r w : io time_Now (r, w) = (clock w, (r, w)).
Proof. rewrite io_run. reflexivity. Qed.

Ltac run :=
  repeat (progress
            (rewrite ?bind_run, ?ret_run, ?self_run, ?assign_run, ?log_run,
               ?now_run, ?gitCmd_run, ?mostRecentCommit_run;
             red_go)).

Lemma checkoutLatestTag_run r w :
  checkoutLatestTag (r, w)
  = match exit_error "git" (next w (fetch_inv r)) with
    | Some e => (Some e, (r, ran (fetch_inv r) w))
    | None =>
        let w1 := ran (describe_inv r) (ran (fetch_inv r) w) in
        let tag := captured (next (ran (fetch_inv r) w) (describe_inv r)) in
        if String.eqb tag "" then (Some (ErrNoTags (URL r)), (r, w1))
        else if String.eqb tag (latestTag r) then (None, (r, w1))
        else
          let w2 := ran (checkout_tag_inv r tag) w1 in
          match exit_error "git" (next w1 (checkout_tag_inv r tag)) with
          | Some e => (Some e, (r, w2))
          | None =>
              (None,
               (set_lastCommit (captured (next w2 (log_inv r)))
                               (set_latestTag tag r),
                ran (log_inv r) w2))
          end
    end.
Proof.
  unfold checkoutLatestTag. rewrite bind_run, fetchLatestTag_run.
  destruct (exit_error _ _); run; [reflexivity|].
  destruct (String.eqb _ ""); run; [reflexivity|].
  destruct (String.eqb _ (latestTag r)); run; [reflexivity|].
  fold (checkout_tag_inv r (captured (next (ran (fetch_inv r) w) (describe_inv r)))).
  destruct (exit_error _ _); run; reflexivity.
Qed.

Lemma clone_run r w :
  clone (r, w)
  = match exit_error "git" (next w (clone_inv r)) with
    | Some e => (Some e, (r, ran (clone_inv r) w))
    | None =>
        let w1 := ran (clone_inv r) w in
        let w2 := ran (log_inv r) (logged (LogPulled (URL r)) w1) in
        let r2 := cloned r (clock w1)
                    (captured (next (logged (LogPulled (URL r)) w1) (log_inv r))) in
        if String.eqb (Branch r) Consts.latestTag then
          let '(e, (r3, w3)) := checkoutLatestTag (r2, w2) in
          match e with
          | Some e => (None, (r3, logged (LogLatestTagError e) w3))
          | None => (None, (r3, w3))
          end
        else (None, (r2, w2))
    end.
Proof.
  unfold clone. run. fold (clone_inv r).
  destruct (exit_error _ _); run; [reflexivity|].
  unfold cloned.
  destruct (String.eqb (Branch r) Consts.latestTag); run; [|reflexivity].
  destruct (checkoutLatestTag _) as [[e|] [r3 w3]]; run; reflexivity.
Qed.

Lemma pull_run r w :
  pull (r, w)
  = if negb (pulled r) then clone (r, w)
    else if String.eqb (Branch r) Consts.latestTag then
      let '(e, (r1, w1)) := checkoutLatestTag (r, w) in
      match e with
      | Some e => (Some e, (r1, logged (LogLatestTagError e) w1))
      | None => (None, (r1, w1))
      end
    else
      match exit_error "git" (next w (pull_inv r)) with
      | Some e => (Some e, (r, ran (pull_inv r) w))
      | None =>
          let w1 := ran (pull_inv r) w in
          (None,
           (cloned r (clock w1)
                   (captured (next (logged (LogPulled (URL r)) w1) (log_inv r))),
            ran (log_inv r) (logged (LogPulled (URL r)) w1)))
      end.
Proof.
  unfold pull. run.
  destruct (negb (pulled r)); [reflexivity|].
  destruct (String.eqb (Branch r) Consts.latestTag); run.
  - destruct (checkoutLatestTag _) as [[e|] [r3 w3]]; run; reflexivity.
  - fold (pull_inv r). destruct (exit_error _ _); run; reflexivity.
Qed.

Lemma attempts_run n err0 r w :
  attempts (S n) err0 (r, w)
  = let '(e, (r1, w1)) := pull (r, w) in
    match e with
    | None => (None, (r1, w1))
    | Some x => attempts n (Some x) (r1, logged (LogWarning x) w1)
    end.
Proof.
  cbn [attempts]. rewrite bind_run.
  destruct (pull (r, w)) as [[x|] [r1 w1]]; run; reflexivity.
Qed.

Lemma Pull_run r w :
  Pull (r, w)
  = if Sub (clock w) (lastPull r) <? 5 * Second then (None, (r, w))
    else
      let '(e, (r1, w1)) := attempts Consts.numRetries None (r, w) in
      match e with
      | Some x => (Some x, (r1, w1))
      | None =>
          (None,
           (r1, if String.eqb (lastCommit r1) (lastCommit r)
                then logged LogNoNewChanges w1 else w1))
      end.
Proof.
  unfold Pull. run. rewrite io_run. unfold time_Since. run.
  unfold time_Now at 1 2; red_go.
  destruct (_ <? _); run; [reflexivity|].
  destruct (attempts _ _ _) as [[x|] [r1 w1]]; run; [reflexivity|].
  destruct (String.eqb _ _); run; reflexivity.
Qed.

(* ================================================================== *)
(** ** A failed attempt leaves the receiver as it was *)

Lemma checkoutLatestTag_failure r w e r' w' :
  checkoutLatestTag (r, w) = (Some e, (r', w')) -> r' = r.
Proof.
  rewrite checkoutLatestTag_run. red_go.
  repeat split_outcome; congruence.
Qed.

Lemma clone_failure r w e r' w' :
  clone (r, w) = (Some e, (r', w')) -> r' = r.
Proof.
  rewrite clone_run. red_go.
  destruct (exit_error _ _); [congruence|].
  destruct (String.eqb _ _); [|congruence].
  destruct (checkoutLatestTag _) as [[x|] [r3 w3]]; congruence.
Qed.

Lemma pull_failure r w e r' w' :
  pull (r, w) = (Some e, (r', w')) -> r' = r.
Proof.
  rewrite pull_run.
  destruct (negb (pulled r)); [apply clone_failure|].
  destruct (String.eqb _ _).
  - destruct (checkoutLatestTag _) as [[x|] [r3 w3]] eqn:E; [|congruence].
    apply checkoutLatestTag_failure in E. congruence.
  - destruct (exit_error _ _); red_go; congruence.
Qed.

Lemma attempts_failure n : forall err0 r w e r' w',
  attempts n err0 (r, w) = (Some e, (r', w')) -> r' = r.
Proof.
  induction n as [|n IH]; intros err0 r w e r' w'.
  - cbn [attempts]. rewrite ret_run. congruence.
  - rewrite attempts_run.
    destruct (pull (r, w)) as [[x|] [r1 w1]] eqn:E; [|congruence].
    apply pull_failure in E. subst r1. apply IH.
Qed.

Lemma Pull_failure r w e r' w' :
  Pull (r, w) = (Some e, (r', w')) -> r' = r.
Proof.
  rewrite Pull_run.
  destruct (_ <? _); [congruence|].
  destruct (attempts _ _ _) as [[x|] [r1 w1]] eqn:E; [|congruence].
  apply attempts_failure in E. congruence.
Qed.

(* ================================================================== *)
(** ** Prepare *)

Lemma originURL_run r w :
  originURL (r, w)
  = match fs w (Path r) with
    | Absent => (("", Some (ErrOS "stat" (Path r))), (r, w))
    | _ => ((captured (next w (origin_inv r)), None), (r, ran (origin_inv r) w))
    end.
Proof.
  unfold originURL. run. rewrite io_run. unfold os_Stat.
  destruct (fs w (Path r)); run; rewrite ?io_run, ?runCmdOutput_run; reflexivity.
Qed.

Lemma Prepare_run r w :
  Prepare (r, w)
  = match fs w (Path r) with
    | Directory (f :: fs') =>
        if existsb is_dot_git (f :: fs') then
          let repoURL := captured (next w (origin_inv r)) in
          if String.eqb (TrimSuffix repoURL ".git") (TrimSuffix (URL r) ".git")
          then (None, (set_pulled true r, ran (origin_inv r) w))
          else (Some (ErrAnotherRepo repoURL (Path r)),
                (r, ran (origin_inv r) w))
        else (Some (ErrNotEmpty (Path r)), (r, w))
    | _ => io (os_MkdirAll (Path r)) (r, w)
    end.
Proof.
  unfold Prepare. run. rewrite (io_run (ioutil_ReadDir _)).
  unfold ioutil_ReadDir.
  destruct (fs w (Path r)) as [| |[|f fs']] eqn:E; run; try reflexivity.
  cbn [List.length Nat.eqb orb].
  change (fun f0 : FileInfo => IsDir f0 && (Name f0 =? ".git")%string)
    with is_dot_git.
  destruct (existsb _ _); run; [|reflexivity].
  rewrite originURL_run, E; run.
  destruct (String.eqb _ _); run; reflexivity.
Qed.

Lemma Prepare_lastPull r w :
  lastPull (fst (snd (Prepare (r, w)))) = lastPull r.
Proof.
  rewrite Prepare_run.
  destruct (fs w (Path r)) as [| |[|f fs']]; rewrite ?io_run; try reflexivity.
  destruct (existsb _ _); [|reflexivity].
  red_go. destruct (String.eqb _ _); reflexivity.
Qed.

Lemma checkoutCommit_receiver h r w :
  fst (snd (checkoutCommit h (r, w))) = r.
Proof.
  unfold checkoutCommit. run.
  destruct (exit_error _ _); run; reflexivity.
Qed.

(** C5.  Over every sequence of operations on a repository -- [Prepare],
    [Pull], a single attempt [pull], [checkoutCommit], time passing -- the
    recorded [lastPull] only moves on success: an operation after which
    the timestamp differs from the one before it is a synchronization
    call or attempt and returned nil, and an operation that returned an
    error left the timestamp where it was. *)
Theorem lastPull_advances_only_on_success (ops : list Op) (s : Repo * World) :
  Forall (fun l =>
            (line_after l <> line_before l ->
             is_sync (line_op l) = true /\ line_result l = None)
            /\ (line_result l <> None -> line_after l = line_before l))
         (history ops s).
Proof.
  revert s. induction ops as [|op ops IH]; intros [r w]; cbn [history].
  - constructor.
  - destruct (perform op (r, w)) as [e [r' w']] eqn:E.
    constructor; [|apply IH].
    cbn [line_after line_before line_op line_result fst].
    assert (Hfail : e <> None -> lastPull r' = lastPull r).
    { destruct e as [x|]; [intros _|congruence].
      destruct op; cbn [perform] in E.
      - rewrite <- (Prepare_lastPull r w), E. reflexivity.
      - apply Pull_failure in E. congruence.
      - apply pull_failure in E. congruence.
      - pose proof (checkoutCommit_receiver commitHash r w) as Hr.
        rewrite E in Hr. cbn [fst snd] in Hr. congruence.
      - revert E. run. rewrite io_run. red_go. congruence. }
    split; [|exact Hfail].
    intros Hne.
    destruct e as [x|]; [exfalso; apply Hne, Hfail; discriminate|].
    split; [|reflexivity].
    destruct op; cbn [perform is_sync] in *; try reflexivity; exfalso; apply Hne.
    + rewrite <- (Prepare_lastPull r w), E. reflexivity.
    + pose proof (checkoutCommit_receiver commitHash r w) as Hr.
      rewrite E in Hr. cbn [fst snd] in Hr. congruence.
    + revert E. run. rewrite io_run. red_go. congruence.
Qed.

(* ================================================================== *)
(** ** An initialized repository is never cloned again *)

Lemma first_sync_no_clone r : is_clone (EvExec (first_sync_inv r)) = false.
Proof. unfold first_sync_inv. destruct (String.eqb _ _); reflexivity. Qed.

Ltac trace_tail :=
  cbn [trace ran logged spawn log emit snd];
  rewrite <- ?app_assoc; cbn [app];
  eexists; split; [reflexivity|];
  repeat (constructor; try reflexivity).

Lemma pull_initialized r w e r' w' :
  pulled r = true ->
  pull (r, w) = (e, (r', w')) ->
  pulled r' = true /\
  exists rest,
    trace w' = trace w ++ EvExec (first_sync_inv r) :: rest /\
    no_clone (EvExec (first_sync_inv r) :: rest).
Proof.
  intros Hp. rewrite pull_run, Hp. cbn [negb].
  unfold first_sync_inv, no_clone.
  destruct (String.eqb (Branch r) Consts.latestTag).
  - rewrite checkoutLatestTag_run. red_go.
    repeat split_outcome;
      intros E; injection E as <- <- <-; (split; [first [exact Hp | reflexivity]|]); trace_tail.
  - destruct (exit_error _ _); red_go;
      intros E; injection E as <- <- <-; (split; [first [exact Hp | reflexivity]|]); trace_tail.
Qed.

Lemma attempts_initialized n : forall err0 r w e r' w',
  pulled r = true ->
  attempts n err0 (r, w) = (e, (r', w')) ->
  pulled r' = true /\
  exists evs,
    trace w' = trace w ++ evs /\ no_clone evs /\
    (n <> O -> exists rest, evs = EvExec (first_sync_inv r) :: rest).
Proof.
  induction n as [|n IH]; intros err0 r w e r' w' Hp.
  - cbn [attempts]. rewrite ret_run. intros E; injection E as <- <- <-.
    split; [exact Hp|]. exists []. rewrite app_nil_r.
    repeat split; [constructor|congruence].
  - rewrite attempts_run.
    destruct (pull (r, w)) as [[x|] [r1 w1]] eqn:E1.
    + destruct (pull_initialized _ _ _ _ _ Hp E1) as (Hp1 & rest & Ht & Hc).
      intros E. destruct (IH _ _ _ _ _ _ Hp1 E) as (Hp' & evs & Ht' & Hc' & _).
      split; [exact Hp'|].
      exists (EvExec (first_sync_inv r) :: rest ++ EvLog (LogWarning x) :: evs).
      split; [|split].
      * rewrite Ht'. cbn [trace logged log emit snd]. rewrite Ht.
        rewrite <- !app_assoc. reflexivity.
      * unfold no_clone in *. rewrite app_comm_cons. apply Forall_app.
        split; [exact Hc|]. constructor; [reflexivity|exact Hc'].
      * eauto.
    + destruct (pull_initialized _ _ _ _ _ Hp E1) as (Hp1 & rest & Ht & Hc).
      intros E; injection E as <- <- <-. split; [exact Hp1|].
      exists (EvExec (first_sync_inv r) :: rest). eauto.
Qed.

Lemma Pull_initialized r w e r' w' :
  pulled r = true ->
  Pull (r, w) = (e, (r', w')) ->
  pulled r' = true /\
  exists evs,
    trace w' = trace w ++ evs /\ no_clone evs /\
    (5 * Second <= Sub (clock w) (lastPull r) ->
     exists rest, evs = EvExec (first_sync_inv r) :: rest).
Proof.
  intros Hp. rewrite Pull_run.
  destruct (_ <? _) eqn:Hd.
  - intros E; injection E as <- <- <-. split; [exact Hp|].
    exists []. rewrite app_nil_r. repeat split; [constructor|].
    apply Z.ltb_lt in Hd. lia.
  - destruct (attempts _ _ _) as [[x|] [r1 w1]] eqn:E1;
      destruct (attempts_initialized _ _ _ _ _ _ _ Hp E1) as (Hp1 & evs & Ht & Hc & Hf);
      destruct Hf as (rest & ->); try discriminate;
      intros E; injection E as <- <- <-; (split; [exact Hp1|]).
    + exists (EvExec (first_sync_inv r) :: rest). eauto.
    + destruct (String.eqb _ _).
      * exists (EvExec (first_sync_inv r) :: rest ++ [EvLog LogNoNewChanges]).
        cbn [trace logged log emit snd]. rewrite Ht, <- app_assoc.
        repeat split; eauto.
        unfold no_clone in *. rewrite app_comm_cons. apply Forall_app.
        split; [exact Hc|]. repeat constructor.
      * exists (EvExec (first_sync_inv r) :: rest). eauto.
Qed.


(* ================================================================== *)
(** ** Prepare on a directory that is not empty *)

Lemma captured_exit_zero out : captured (Exited 0 out) = TrimSpace out.
Proof. reflexivity. Qed.

(** C6.  The path of the repository holds a directory with a [.git]
    directory in it, and [git config --get remote.origin.url] run there
    exits with status zero and prints an origin that equals the configured
    [URL] once a trailing [.git] is cut from both.  Then [Prepare] returns
    nil and sets [pulled], leaving everything else and the disk as they
    are; and any later [Pull] on that repository issues no [git clone]:
    unless it is debounced, its first command is the [git pull] of the
    branch (the [git fetch] of the tags in tag-tracking mode). *)
Theorem Prepare_adopts_matching_working_copy r w es out :
  fs w (Path r) = Directory es ->
  existsb is_dot_git es = true ->
  next w (origin_inv r) = Exited 0 out ->
  TrimSuffix (TrimSpace out) ".git" = TrimSuffix (URL r) ".git" ->
  Prepare (r, w) = (None, (set_pulled true r, ran (origin_inv r) w))
  /\ fs (ran (origin_inv r) w) = fs w
  /\ forall w2 e r2 w3,
       Pull (set_pulled true r, w2) = (e, (r2, w3)) ->
       exists evs,
         trace w3 = trace w2 ++ evs /\ no_clone evs /\
         (5 * Second <= Sub (clock w2) (lastPull r) ->
          exists rest, evs = EvExec (first_sync_inv r) :: rest).
Proof.
  intros Hdir Hgit Hout Hsame. split; [|split].
  - rewrite Prepare_run, Hdir.
    destruct es as [|f fs']; [discriminate|].
    rewrite Hgit. red_go. rewrite Hout, captured_exit_zero, Hsame.
    rewrite String.eqb_refl. reflexivity.
  - reflexivity.
  - intros w2 e r2 w3 E.
    destruct (Pull_initialized (set_pulled true r) w2 e r2 w3 eq_refl E)
      as (_ & evs & Ht & Hc & Hf).
    exists evs. auto.
Qed.

(** The path of the repository holds a directory that is not empty, and
    either no entry of it is a [.git] directory, or one is and what
    [originURL] hands back -- the trimmed output of
    [git config --get remote.origin.url], or the empty string when that
    command could not be started or exited with a status other than
    zero -- differs from the configured [URL] even with a trailing [.git]
    cut from both.  Then [Prepare] returns one of its configuration
    errors, the receiver is unchanged, the disk is unchanged and no
    directory was created: the trace gained nothing, or the one
    [git config] command. *)
Theorem Prepare_rejects_foreign_content r w es :
  fs w (Path r) = Directory es ->
  es <> [] ->
  (existsb is_dot_git es = false \/
   existsb is_dot_git es = true /\
   TrimSuffix (captured (next w (origin_inv r))) ".git"
   <> TrimSuffix (URL r) ".git") ->
  exists e w',
    Prepare (r, w) = (Some e, (r, w')) /\
    is_configuration_error e = true /\
    fs w' = fs w /\
    (trace w' = trace w \/ trace w' = trace w ++ [EvExec (origin_inv r)]).
Proof.
  intros Hdir Hne Hcase. rewrite Prepare_run, Hdir.
  destruct es as [|f fs']; [congruence|].
  destruct Hcase as [Hgit | (Hgit & Hdiff)]; rewrite Hgit.
  - exists (ErrNotEmpty (Path r)), w. auto.
  - red_go. apply String.eqb_neq in Hdiff. rewrite Hdiff.
    exists (ErrAnotherRepo (captured (next w (origin_inv r))) (Path r)),
           (ran (origin_inv r) w).
    repeat split; auto.
Qed.

(** The converse for a working copy: [Prepare] adopts a directory with a
    [.git] directory in it whenever what [originURL] hands back equals the
    configured [URL] once a trailing [.git] is cut from both -- also when
    it handed back the empty string because the origin could not be
    read. *)
Lemma Prepare_adopts_on_equal_names r w es :
  fs w (Path r) = Directory es ->
  existsb is_dot_git es = true ->
  TrimSuffix (captured (next w (origin_inv r))) ".git"
  = TrimSuffix (URL r) ".git" ->
  Prepare (r, w) = (None, (set_pulled true r, ran (origin_inv r) w)).
Proof.
  intros Hdir Hgit Hsame. rewrite Prepare_run, Hdir.
  destruct es as [|f fs']; [discriminate|].
  rewrite Hgit. red_go. rewrite Hsame, String.eqb_refl. reflexivity.
Qed.

(** [Prepare] never returns the error of its own third branch,
    "cannot retrieve repo url": the path has just been read as a
    directory, so the [os.Stat] of [originURL] succeeds, and
    [runCmdOutput] hands back a nil error whatever [git config] did. *)
Lemma Prepare_never_reports_unreadable_origin r w p x :
  fst (Prepare (r, w)) <> Some (ErrRetrieveURL p x).
Proof.
  rewrite Prepare_run.
  destruct (fs w (Path r)) as [| |[|f fs']] eqn:E;
    rewrite ?io_run; unfold os_MkdirAll; rewrite ?E; try (cbn; discriminate).
  destruct (existsb _ _); [|cbn; discriminate].
  red_go. destruct (String.eqb _ _); cbn; discriminate.
Qed.

(* ================================================================== *)
(** ** Pull *)

(** The guard of [Pull].  Whenever the time since the recorded [lastPull]
    is below five seconds, [Pull] returns nil and hands back the receiver
    and the world it was given: no process was started and nothing was
    logged. *)
Theorem Pull_debounced r w :
  Sub (clock w) (lastPull r) < 5 * Second ->
  Pull (r, w) = (None, (r, w)).
Proof.
  intros H. rewrite Pull_run. apply Z.ltb_lt in H. rewrite H. reflexivity.
Qed.

(** C2.  A call of [Pull] that is past the debounce window and whose
    three attempts ([numRetries]) all return an error returns the error
    of the last attempt, and its receiver is afterwards what it was
    before -- [pulled], [lastPull], [lastCommit], [latestTag] and the
    configuration alike; each failed attempt already left it so. *)
Theorem Pull_exhausted_retries_leave_state
        r w e1 e2 e3 r1 r2 r3 w1 w2 w3 :
  5 * Second <= Sub (clock w) (lastPull r) ->
  pull (r, w) = (Some e1, (r1, w1)) ->
  pull (r1, logged (LogWarning e1) w1) = (Some e2, (r2, w2)) ->
  pull (r2, logged (LogWarning e2) w2) = (Some e3, (r3, w3)) ->
  Pull (r, w) = (Some e3, (r, logged (LogWarning e3) w3))
  /\ r1 = r /\ r2 = r /\ r3 = r.
Proof.
  intros Hd E1 E2 E3.
  assert (r1 = r) by (eapply pull_failure; eassumption). subst r1.
  assert (r2 = r) by (eapply pull_failure; eassumption). subst r2.
  assert (r3 = r) by (eapply pull_failure; eassumption). subst r3.
  split; [|auto].
  rewrite Pull_run. apply Z.ltb_ge in Hd. rewrite Hd.
  unfold Consts.numRetries.
  rewrite attempts_run, E1. red_go.
  rewrite attempts_run, E2. red_go.
  rewrite attempts_run, E3. red_go.
  cbn [attempts]. rewrite ret_run. reflexivity.
Qed.

(* ================================================================== *)
(** ** Tag-tracking mode *)

Lemma checkouts_ran inv w :
  checkouts (trace (ran inv w))
  = (checkouts (trace w) + if is_checkout (EvExec inv) then 1 else 0)%nat.
Proof.
  unfold checkouts. cbn [trace ran spawn snd].
  rewrite filter_app, length_app. cbn [filter].
  destruct (is_checkout _); reflexivity.
Qed.

Lemma checkouts_logged l w :
  checkouts (trace (logged l w)) = checkouts (trace w).
Proof.
  unfold checkouts. cbn [trace logged log emit snd].
  rewrite filter_app, length_app. cbn. lia.
Qed.

Lemma exit_error_succeeds c o : succeeds o = true -> exit_error c o = None.
Proof. destruct o as [|code out]; cbn; [discriminate|]. intros ->. reflexivity. Qed.

Lemma captured_succeeds o : succeeds o = true -> captured o = TrimSpace (printed o).
Proof. unfold captured. intros ->. reflexivity. Qed.

(** The no-op half of C8: the resolved tag is the one already recorded. *)
Lemma checkoutLatestTag_same_tag r w tag w1 :
  fetchLatestTag (r, w) = ((tag, None), (r, w1)) ->
  tag <> "" ->
  tag = latestTag r ->
  checkoutLatestTag (r, w) = (None, (r, w1))
  /\ checkouts (trace w1) = checkouts (trace w).
Proof.
  rewrite fetchLatestTag_run, checkoutLatestTag_run.
  destruct (exit_error _ _); [discriminate|]. red_go.
  intros E Hne Heq. injection E as Htag <-.
  rewrite Htag. apply String.eqb_neq in Hne. rewrite Hne.
  rewrite Heq, String.eqb_refl. split; [reflexivity|].
  rewrite !checkouts_ran. cbn. lia.
Qed.

Lemma all_succeed_oracle w w' :
  oracle w' = oracle w -> all_succeed w -> all_succeed w'.
Proof. unfold all_succeed. intros -> H. exact H. Qed.

Lemma latest_remote_tag_oracle w w' r r' T :
  oracle w' = oracle w -> Path r' = Path r ->
  latest_remote_tag w r T -> latest_remote_tag w' r' T.
Proof.
  unfold latest_remote_tag, describe_inv. intros -> -> H. exact H.
Qed.

Lemma exit_error_ok w inv : all_succeed w -> exit_error "git" (next w inv) = None.
Proof. intros H. apply exit_error_succeeds, H. Qed.

Lemma captured_tag w r T :
  all_succeed w -> latest_remote_tag w r T ->
  captured (next w (describe_inv r)) = T.
Proof.
  intros Hok Htag. unfold next. rewrite captured_succeeds by apply Hok.
  apply Htag.
Qed.

Ltac same_oracle :=
  first [ eapply all_succeed_oracle; [|eassumption]; reflexivity
        | eapply latest_remote_tag_oracle; [| |eassumption]; reflexivity ].

(** A tag-mode convergence step when git works and the remote has a tag. *)
Lemma checkoutLatestTag_succeeds r w T :
  all_succeed w ->
  latest_remote_tag w r T ->
  T <> "" ->
  exists r' w',
    checkoutLatestTag (r, w) = (None, (r', w'))
    /\ oracle w' = oracle w
    /\ latestTag r' = T /\ pulled r' = pulled r /\ lastPull r' = lastPull r
    /\ Branch r' = Branch r /\ Path r' = Path r
    /\ (latestTag r = T -> r' = r)
    /\ checkouts (trace w')
       = (checkouts (trace w) + if String.eqb T (latestTag r) then 0 else 1)%nat.
Proof.
  intros Hok Htag Hne. rewrite checkoutLatestTag_run. red_go.
  rewrite exit_error_ok by exact Hok.
  rewrite (captured_tag (ran (fetch_inv r) w) r T) by same_oracle.
  apply String.eqb_neq in Hne. rewrite Hne.
  destruct (String.eqb T (latestTag r)) eqn:Hsame.
  - apply String.eqb_eq in Hsame.
    do 2 eexists. split; [reflexivity|].
    repeat split; auto.
    rewrite !checkouts_ran. cbn. lia.
  - rewrite exit_error_ok by same_oracle.
    do 2 eexists. split; [reflexivity|].
    repeat split; auto.
    + intros H. apply String.eqb_neq in Hsame. congruence.
    + rewrite !checkouts_ran. cbn. lia.
Qed.

Lemma pull_tag_mode_succeeds r w T :
  Branch r = Consts.latestTag ->
  all_succeed w ->
  latest_remote_tag w r T ->
  T <> "" ->
  exists r' w',
    pull (r, w) = (None, (r', w'))
    /\ oracle w' = oracle w
    /\ latestTag r' = T /\ pulled r' = true
    /\ Branch r' = Branch r /\ Path r' = Path r
    /\ (pulled r = true -> latestTag r = T -> r' = r)
    /\ checkouts (trace w')
       = (checkouts (trace w) + if String.eqb T (latestTag r) then 0 else 1)%nat.
Proof.
  intros Hb Hok Htag Hne. rewrite pull_run.
  destruct (pulled r) eqn:Hp; cbn [negb].
  - rewrite Hb, String.eqb_refl.
    destruct (checkoutLatestTag_succeeds r w T Hok Htag Hne)
      as (r' & w' & -> & Ho & Ht & Hp' & _ & Hb' & Hpath & Hsame & Hc).
    exists r', w'. repeat split; auto; congruence.
  - rewrite clone_run, exit_error_ok by exact Hok. red_go.
    rewrite Hb, String.eqb_refl.
    match goal with
    | |- context [checkoutLatestTag (?r2, ?w2)] =>
        destruct (checkoutLatestTag_succeeds r2 w2 T)
          as (r' & w' & -> & Ho & Ht & Hp' & _ & Hb' & Hpath & _ & Hc);
          [same_oracle | same_oracle | exact Hne |]
    end.
    change (Branch r' = Branch r) in Hb'. change (Path r' = Path r) in Hpath.
    change (pulled r' = true) in Hp'.
    exists r', w'. repeat split; auto; try discriminate; try congruence.
    rewrite Hc, checkouts_ran, checkouts_logged, checkouts_ran.
    cbn [latestTag cloned set_lastCommit set_lastPull set_pulled].
    unfold is_checkout, subcommand, clone_inv.
    rewrite Hb, String.eqb_refl. cbn. lia.
Qed.

Lemma Pull_tag_mode_succeeds r w T :
  Branch r = Consts.latestTag ->
  all_succeed w ->
  latest_remote_tag w r T ->
  T <> "" ->
  5 * Second <= Sub (clock w) (lastPull r) ->
  exists r' w',
    Pull (r, w) = (None, (r', w'))
    /\ oracle w' = oracle w
    /\ latestTag r' = T /\ pulled r' = true
    /\ Branch r' = Branch r /\ Path r' = Path r
    /\ (pulled r = true -> latestTag r = T -> r' = r)
    /\ checkouts (trace w')
       = (checkouts (trace w) + if String.eqb T (latestTag r) then 0 else 1)%nat.
Proof.
  intros Hb Hok Htag Hne Hd. rewrite Pull_run.
  apply Z.ltb_ge in Hd. rewrite Hd.
  unfold Consts.numRetries. rewrite attempts_run.
  destruct (pull_tag_mode_succeeds r w T Hb Hok Htag Hne)
    as (r' & w' & -> & Ho & Ht & Hp' & Hb' & Hpath & Hsame & Hc).
  red_go.
  destruct (String.eqb (lastCommit r') (lastCommit r));
    do 2 eexists; (split; [reflexivity|]);
    repeat split; rewrite ?checkouts_logged; auto.
Qed.

(** C8, as amended.  In tag-tracking mode, (1) when [fetchLatestTag]
    resolves a tag that is the recorded [latestTag], [checkoutLatestTag]
    returns nil, leaves the receiver as it is and issues no checkout; and
    (2) when every command exits with status zero and the remote's latest
    tag is a tag T throughout, other than the one recorded before the
    first call, two calls of [Pull], each past the debounce window, both
    return nil, the first issues exactly one checkout and records T, and
    the second issues none and leaves the receiver as it is. *)
Theorem tag_convergence_is_idempotent :
  (forall r w tag w1,
      fetchLatestTag (r, w) = ((tag, None), (r, w1)) ->
      tag <> "" ->
      tag = latestTag r ->
      checkoutLatestTag (r, w) = (None, (r, w1))
      /\ checkouts (trace w1) = checkouts (trace w))
  /\
  (forall r w T d e1 r1 w1 e2 r2 w2,
      Branch r = Consts.latestTag ->
      all_succeed w ->
      latest_remote_tag w r T ->
      T <> "" ->
      latestTag r <> T ->
      5 * Second <= Sub (clock w) (lastPull r) ->
      Pull (r, w) = (e1, (r1, w1)) ->
      5 * Second <= Sub (clock (later d w1)) (lastPull r1) ->
      Pull (r1, later d w1) = (e2, (r2, w2)) ->
      e1 = None /\ e2 = None /\ r2 = r1 /\ latestTag r1 = T
      /\ checkouts (trace w1) = S (checkouts (trace w))
      /\ checkouts (trace w2) = checkouts (trace w1)).
Proof.
  split; [exact checkoutLatestTag_same_tag|].
  intros r w T d e1 r1 w1 e2 r2 w2 Hb Hok Htag Hne Hnew Hd1 E1 Hd2 E2.
  destruct (Pull_tag_mode_succeeds r w T Hb Hok Htag Hne Hd1)
    as (r' & w' & E1' & Ho & Ht & Hp' & Hb' & Hpath & _ & Hc).
  rewrite E1' in E1. injection E1 as <- <- <-.
  destruct (Pull_tag_mode_succeeds r' (later d w') T)
    as (r'' & w'' & E2' & Ho2 & Ht2 & Hp2 & _ & _ & Hsame & Hc2);
    [congruence | | | exact Hne | exact Hd2 |].
  { eapply all_succeed_oracle; [|exact Hok]. exact Ho. }
  { eapply latest_remote_tag_oracle; [| |exact Htag]; [exact Ho|exact Hpath]. }
  rewrite E2' in E2. injection E2 as <- <- <-.
  apply not_eq_sym, String.eqb_neq in Hnew.
  rewrite Hnew in Hc. rewrite Ht, String.eqb_refl in Hc2.
  repeat split; auto.
  - rewrite Hc. lia.
  - rewrite Hc2. cbn [later advance snd trace]. lia.
Qed.

(* ================================================================== *)
(** ** commands.go: what the two runners report *)

Lemma runCmd_reports_failure c a d w :
  succeeds (next w (mkInvocation c a d)) = false ->
  exists e, fst (runCmd c a d w) = Some e.
Proof.
  rewrite runCmd_run. cbn [fst].
  destruct (next w _) as [|code out]; cbn; [eauto|].
  intros ->. eauto.
Qed.

Lemma runCmdOutput_success c a d w out :
  next w (mkInvocation c a d) = Exited 0 out ->
  runCmdOutput c a d w = ((TrimSpace out, None), ran (mkInvocation c a d) w).
Proof. intros H. rewrite runCmdOutput_run, H. reflexivity. Qed.

Lemma runCmdOutput_never_fails c a d w :
  snd (fst (runCmdOutput c a d w)) = None.
Proof. rewrite runCmdOutput_run. reflexivity. Qed.

Lemma runCmdOutput_failure c a d w :
  succeeds (next w (mkInvocation c a d)) = false ->
  fst (runCmdOutput c a d w) = ("", None).
Proof.
  intros H. rewrite runCmdOutput_run. unfold captured. rewrite H. reflexivity.
Qed.

(** C1 (the code departs from the claim).  [git describe] exits with
    status 128 in the first world and cannot be started at all in the
    second; [runCmdOutput] returns the empty string and a nil error both
    times, where the claim wants an error.  [runCmd] returns the error in
    the same two worlds. *)
Theorem runCmdOutput_returns_nil_error_on_failure :
  fst (runCmdOutput "git" ["describe"; "origin"; "--abbrev=0"; "--tags"]
                    Scenario.zones (Scenario.world [Exited 128 ""]))
  = ("", None)
  /\ fst (runCmdOutput "git" ["describe"; "origin"; "--abbrev=0"; "--tags"]
                       Scenario.zones Scenario.offline)
     = ("", None)
  /\ fst (runCmd "git" ["describe"; "origin"; "--abbrev=0"; "--tags"]
                 Scenario.zones (Scenario.world [Exited 128 ""]))
     = Some (ErrExit 128)
  /\ fst (runCmd "git" ["describe"; "origin"; "--abbrev=0"; "--tags"]
                 Scenario.zones Scenario.offline)
     = Some (ErrStart "git").
Proof. repeat split; reflexivity. Qed.

(* ================================================================== *)
(** ** Git.Repo *)

Lemma len_nonneg g : 0 <= len g.
Proof. unfold len. lia. Qed.

Lemma Git_Repo_valid g i :
  0 <= i < len g -> Git_Repo g i = Returns (nth (Z.to_nat i) g None).
Proof.
  intros [H0 H1]. unfold Git_Repo, index.
  apply Z.ltb_lt in H1. apply Z.leb_le in H0. rewrite H1, H0. reflexivity.
Qed.

Lemma Git_Repo_beyond g i : len g <= i -> Git_Repo g i = Returns None.
Proof.
  intros H. unfold Git_Repo. apply Z.ltb_ge in H. rewrite H. reflexivity.
Qed.

Lemma Git_Repo_negative g i :
  i < 0 -> Git_Repo g i = Panics "index out of range".
Proof.
  intros H. unfold Git_Repo, index. pose proof (len_nonneg g).
  replace (i <? len g) with true by (symmetry; apply Z.ltb_lt; lia).
  replace (0 <=? i) with false by (symmetry; apply Z.leb_gt; lia).
  reflexivity.
Qed.

(** C10 (the code departs from the claim).  The guard of [Git.Repo] is
    [i < len(g)] alone, so index -1 passes it and [g[-1]] panics, on a
    list of one repository and on the empty list alike; the claim wants
    nil.  At and beyond the length the accessor does return nil. *)
Theorem Git_Repo_panics_on_negative_index :
  Git_Repo [Some (Scenario.fresh "main")] (-1) = Panics "index out of range"
  /\ Git_Repo [] (-1) = Panics "index out of range"
  /\ Git_Repo [Some (Scenario.fresh "main")] 0
     = Returns (Some (Scenario.fresh "main"))
  /\ Git_Repo [Some (Scenario.fresh "main")] 1 = Returns None.
Proof. repeat split; reflexivity. Qed.

(* ================================================================== *)
(** ** A remote without tags *)

(** On an initialized repository the error of [checkoutLatestTag] reaches
    the caller of [Pull]. *)
Lemma Pull_initialized_no_tags r w :
  pulled r = true ->
  Branch r = Consts.latestTag ->
  all_succeed w ->
  latest_remote_tag w r "" ->
  5 * Second <= Sub (clock w) (lastPull r) ->
  exists w', Pull (r, w) = (Some (ErrNoTags (URL r)), (r, w')).
Proof.
  intros Hp Hb Hok Htag Hd.
  assert (Hpull : forall w0, oracle w0 = oracle w ->
            pull (r, w0)
            = (Some (ErrNoTags (URL r)),
               (r, logged (LogLatestTagError (ErrNoTags (URL r)))
                          (ran (describe_inv r) (ran (fetch_inv r) w0))))).
  { intros w0 Ho. rewrite pull_run, Hp. cbn [negb].
    rewrite Hb, String.eqb_refl, checkoutLatestTag_run.
    rewrite exit_error_ok
      by (eapply all_succeed_oracle; [|exact Hok]; exact Ho).
    red_go. rewrite (captured_tag (ran (fetch_inv r) w0) r "").
    - reflexivity.
    - eapply all_succeed_oracle; [|exact Hok]. exact Ho.
    - eapply latest_remote_tag_oracle; [| |exact Htag]; [exact Ho|reflexivity]. }
  rewrite Pull_run. apply Z.ltb_ge in Hd. rewrite Hd.
  unfold Consts.numRetries.
  rewrite attempts_run, Hpull by reflexivity. red_go.
  rewrite attempts_run, Hpull by reflexivity. red_go.
  rewrite attempts_run, Hpull by reflexivity. red_go.
  cbn [attempts]. rewrite ret_run. eauto.
Qed.

(** C4 (the code departs from the claim).  A repository in tag-tracking
    mode is cloned from a remote without tags: clone, log and fetch
    succeed, describe finds nothing.  [Pull] returns nil, marks the
    repository pulled and advances the last-pull timestamp; the error
    "no tags found" only reaches the log, where the claim wants it
    returned.  The same remote seen from an initialized repository does
    make [Pull] return that error. *)
Theorem clone_swallows_missing_tags :
  fst (Pull (Scenario.fresh Consts.latestTag, Scenario.no_tags_clone)) = None
  /\ pulled (fst (snd (Pull (Scenario.fresh Consts.latestTag,
                             Scenario.no_tags_clone)))) = true
  /\ last (trace (snd (snd (Pull (Scenario.fresh Consts.latestTag,
                                  Scenario.no_tags_clone))))) (EvLog LogNoNewChanges)
     = EvLog (LogLatestTagError (ErrNoTags "host/org/zones"))
  /\ fst (Pull (Scenario.adopted Consts.latestTag, Scenario.no_tags_pull))
     = Some (ErrNoTags "host/org/zones").
Proof. repeat split; vm_compute; reflexivity. Qed.

(* ================================================================== *)
(** ** Tag-tracking mode records no time *)

(** In tag-tracking mode an initialized repository never has its
    [lastPull] written: [pull] returns what [checkoutLatestTag] returns,
    and that method assigns [latestTag] and [lastCommit] only. *)
Lemma checkoutLatestTag_lastPull r w :
  lastPull (fst (snd (checkoutLatestTag (r, w)))) = lastPull r.
Proof.
  rewrite checkoutLatestTag_run. red_go.
  repeat split_outcome; reflexivity.
Qed.

Lemma pull_tag_mode_lastPull r w e r' w' :
  pulled r = true ->
  Branch r = Consts.latestTag ->
  pull (r, w) = (e, (r', w')) ->
  pulled r' = true /\ Branch r' = Consts.latestTag /\ lastPull r' = lastPull r.
Proof.
  intros Hp Hb. rewrite pull_run, Hp, Hb, String.eqb_refl. cbn [negb].
  pose proof (checkoutLatestTag_lastPull r w) as Hl. revert Hl.
  rewrite checkoutLatestTag_run. red_go.
  repeat split_outcome; cbn [fst snd]; intros Hl E; injection E as <- <- <-;
    auto.
Qed.

Lemma attempts_tag_mode_lastPull n : forall err0 r w e r' w',
  pulled r = true ->
  Branch r = Consts.latestTag ->
  attempts n err0 (r, w) = (e, (r', w')) ->
  lastPull r' = lastPull r.
Proof.
  induction n as [|n IH]; intros err0 r w e r' w' Hp Hb.
  - cbn [attempts]. rewrite ret_run. congruence.
  - rewrite attempts_run.
    destruct (pull (r, w)) as [[x|] [r1 w1]] eqn:E1;
      destruct (pull_tag_mode_lastPull _ _ _ _ _ Hp Hb E1) as (Hp1 & Hb1 & Hl1).
    + intros E. rewrite <- Hl1. eapply IH; eassumption.
    + congruence.
Qed.

Lemma Pull_tag_mode_lastPull r w e r' w' :
  pulled r = true ->
  Branch r = Consts.latestTag ->
  Pull (r, w) = (e, (r', w')) ->
  lastPull r' = lastPull r.
Proof.
  intros Hp Hb. rewrite Pull_run.
  destruct (_ <? _); [congruence|].
  destruct (attempts _ _ _) as [[x|] [r1 w1]] eqn:E1;
    apply (attempts_tag_mode_lastPull _ _ _ _ _ _ _ Hp Hb) in E1; congruence.
Qed.

(** C3 (the code departs from the claim).  Tag-tracking mode over an
    initialized repository, and a remote that always answers.  The first
    call of [Pull] returns nil after [git fetch], [git describe],
    [git checkout] and [git log]: a successful pull.  The recorded
    [lastPull] is afterwards still the zero time.  The second call starts
    one second after the first has returned, 1.4 seconds after it
    started; it returns nil, but not at once: it runs [git fetch] and
    [git describe] again.  In branch mode, over the same working copy and
    remote, the first call records the time at which its [git pull]
    ended, and the second call, one second after the first, hands back
    what it was given. *)
Theorem successful_tag_pull_is_not_debounced :
  (fst Scenario.quick_call_1 = None
   /\ execs (trace (snd (snd Scenario.quick_call_1))) = 4%nat
   /\ checkouts (trace (snd (snd Scenario.quick_call_1))) = 1%nat
   /\ latestTag (fst (snd Scenario.quick_call_1)) = "v1.0"%string
   /\ lastPull (fst (snd Scenario.quick_call_1)) = zeroTime
   /\ clock (later Second (snd (snd Scenario.quick_call_1)))
      - clock Scenario.healthy_world = 14 * (Second / 10)
   /\ fst Scenario.quick_call_2 = None
   /\ trace (snd (snd Scenario.quick_call_2))
      = trace (snd (snd Scenario.quick_call_1))
        ++ [EvExec (fetch_inv (Scenario.adopted Consts.latestTag));
            EvExec (describe_inv (Scenario.adopted Consts.latestTag));
            EvLog LogNoNewChanges])
  /\
  (fst Scenario.branch_call_1 = None
   /\ lastPull (fst (snd Scenario.branch_call_1))
      = clock Scenario.healthy_world + Second / 10
   /\ Scenario.branch_call_2
      = (None, (fst (snd Scenario.branch_call_1),
                later Second (snd (snd Scenario.branch_call_1))))).
Proof. repeat split; vm_compute; reflexivity. Qed.

(** C7 (the code departs from the claim).  [/zones] holds a working copy
    whose origin cannot be read: [git config --get remote.origin.url]
    exits with status 1 and prints nothing, or [git] cannot be started at
    all.  For the configuration [git .git /zones] the method [Prepare]
    returns nil and marks the repository pulled, where the claim wants a
    configuration error and the recorded state unchanged: [originURL]
    handed back the empty string with a nil error, and the configured URL
    with its trailing [.git] cut is the empty string too.  For the
    configuration [git host/org/zones /zones] over the same directory
    [Prepare] does return an error, naming the other repository as the
    empty string. *)
Theorem Prepare_adopts_copy_of_unreadable_origin :
  Prepare (Scenario.dot_git_url, Scenario.no_origin)
  = (None, (set_pulled true Scenario.dot_git_url,
            ran (origin_inv Scenario.dot_git_url) Scenario.no_origin))
  /\ Prepare (Scenario.dot_git_url, Scenario.no_git_on_copy)
     = (None, (set_pulled true Scenario.dot_git_url,
               ran (origin_inv Scenario.dot_git_url) Scenario.no_git_on_copy))
  /\ fst (Prepare (Scenario.fresh "main", Scenario.no_origin))
     = Some (ErrAnotherRepo "" "/zones")
  /\ fst (Prepare (Scenario.fresh "main", Scenario.no_git_on_copy))
     = Some (ErrAnotherRepo "" "/zones").
Proof. repeat split; vm_compute; reflexivity. Qed.

(* ================================================================== *)
(** ** The theorems at work *)

(** [git] missing: the three attempts of one call fail, the call returns
    the last error and the repository is as before. *)
Lemma retries_exhausted_offline :
  Pull (Scenario.fresh "main", Scenario.offline)
  = (Some Scenario.no_git,
     (Scenario.fresh "main", logged (LogWarning Scenario.no_git) Scenario.offline3))
  /\ Scenario.fresh "main" = Scenario.fresh "main"
  /\ Scenario.fresh "main" = Scenario.fresh "main"
  /\ Scenario.fresh "main" = Scenario.fresh "main".
Proof.
  apply (Pull_exhausted_retries_leave_state
           (Scenario.fresh "main") Scenario.offline
           Scenario.no_git Scenario.no_git Scenario.no_git
           (Scenario.fresh "main") (Scenario.fresh "main") (Scenario.fresh "main")
           Scenario.offline1 Scenario.offline2 Scenario.offline3).
  - vm_compute. discriminate.
  - reflexivity.
  - reflexivity.
  - reflexivity.
Defined.

(** The first call clones, marks the repository pulled and records the
    hash; a second call one second later does nothing. *)
Lemma debounce_after_a_second :
  (fst Scenario.first_clone = None
   /\ pulled Scenario.cloned_repo = true
   /\ lastCommit Scenario.cloned_repo = "0a1b2c3"%string
   /\ Sub (clock Scenario.a_second_after) (lastPull Scenario.cloned_repo)
      < 5 * Second)
  /\ Pull (Scenario.cloned_repo, Scenario.a_second_after)
     = (None, (Scenario.cloned_repo, Scenario.a_second_after)).
Proof.
  split.
  - repeat split; vm_compute; reflexivity.
  - apply (Pull_debounced Scenario.cloned_repo Scenario.a_second_after).
    vm_compute. reflexivity.
Defined.

(** Two calls less than five seconds apart of which the second one runs
    [git].  (a) The first call finds no [git] and returns an error; the
    second call starts 1.3 seconds after the first did, runs [git] three
    more times and returns an error too.  (b) In tag-tracking mode over an
    adopted working copy both calls return nil; the second starts 1.4
    seconds after the first did, one second after its success, and runs
    [git] twice (fetch and describe). *)
Lemma second_call_within_window_runs_git :
  (fst (Pull (Scenario.fresh "main", Scenario.offline)) = Some Scenario.no_git
   /\ clock (snd Scenario.one_second_later) - clock Scenario.offline
      < 5 * Second
   /\ fst (Pull Scenario.one_second_later) = Some Scenario.no_git
   /\ execs (trace (snd (snd (Pull Scenario.one_second_later))))
      = (execs (trace (snd Scenario.one_second_later)) + 3)%nat)
  /\
  (fst Scenario.quick_call_1 = None
   /\ clock (later Second (snd (snd Scenario.quick_call_1)))
      - clock Scenario.healthy_world < 5 * Second
   /\ fst Scenario.quick_call_2 = None
   /\ execs (trace (snd (snd Scenario.quick_call_2)))
      = (execs (trace (snd (snd Scenario.quick_call_1))) + 2)%nat).
Proof. repeat split; vm_compute; reflexivity. Qed.

(** Restart over a working copy of [host/org/zones.git]. *)
Lemma restart_over_zones_copy :
  Prepare (Scenario.fresh "main", Scenario.same_origin)
  = (None,
     (set_pulled true (Scenario.fresh "main"),
      ran (origin_inv (Scenario.fresh "main")) Scenario.same_origin))
  /\ fs (ran (origin_inv (Scenario.fresh "main")) Scenario.same_origin)
     = fs Scenario.same_origin
  /\ forall w2 e r2 w3,
       Pull (set_pulled true (Scenario.fresh "main"), w2) = (e, (r2, w3)) ->
       exists evs,
         trace w3 = trace w2 ++ evs /\ no_clone evs /\
         (5 * Second <= Sub (clock w2) (lastPull (Scenario.fresh "main")) ->
          exists rest,
            evs = EvExec (first_sync_inv (Scenario.fresh "main")) :: rest).
Proof.
  apply (Prepare_adopts_matching_working_copy
           (Scenario.fresh "main") Scenario.same_origin
           [mkFileInfo ".git" true; mkFileInfo "db.example.org" false]
           ("host/org/zones.git" ++ Scenario.newline)%string).
  - reflexivity.
  - reflexivity.
  - reflexivity.
  - reflexivity.
Defined.

(** A working copy of another remote, and a directory of plain files. *)
Lemma foreign_content_at_zones :
  (exists e w',
      Prepare (Scenario.fresh "main", Scenario.other_origin)
      = (Some e, (Scenario.fresh "main", w')) /\
      is_configuration_error e = true /\
      fs w' = fs Scenario.other_origin /\
      (trace w' = trace Scenario.other_origin \/
       trace w' = trace Scenario.other_origin
                  ++ [EvExec (origin_inv (Scenario.fresh "main"))]))
  /\
  (exists e w',
      Prepare (Scenario.fresh "main", Scenario.not_a_copy)
      = (Some e, (Scenario.fresh "main", w')) /\
      is_configuration_error e = true /\
      fs w' = fs Scenario.not_a_copy /\
      (trace w' = trace Scenario.not_a_copy \/
       trace w' = trace Scenario.not_a_copy
                  ++ [EvExec (origin_inv (Scenario.fresh "main"))])).
Proof.
  split.
  - apply (Prepare_rejects_foreign_content
             (Scenario.fresh "main") Scenario.other_origin
             [mkFileInfo ".git" true; mkFileInfo "db.example.org" false]).
    + reflexivity.
    + discriminate.
    + right. split; [reflexivity|]. vm_compute. discriminate.
  - apply (Prepare_rejects_foreign_content
             (Scenario.fresh "main") Scenario.not_a_copy
             [mkFileInfo "db.example.org" false]).
    + reflexivity.
    + discriminate.
    + left. reflexivity.
Defined.

Lemma healthy_all_succeed : all_succeed Scenario.healthy_world.
Proof.
  intros n inv. cbn [oracle Scenario.healthy_world Scenario.healthy outcome].
  destruct (String.eqb _ "describe"); [reflexivity|].
  destruct (String.eqb _ "--no-pager"); reflexivity.
Qed.

Lemma healthy_latest_tag r : latest_remote_tag Scenario.healthy_world r "v1.0".
Proof. intros n. reflexivity. Qed.

(** C8 as stated fails.  The remote's latest tag is v1.0 throughout.
    (a) The first call's first checkout exits with status 1, its second
    attempt checks the tag out; the second call, ten seconds later, is a
    no-op.  Both calls return nil and two checkout commands were issued.
    (b) On a remote that always answers, the second and the third of
    three calls ten seconds apart both return nil, run [git] four times
    between them and issue no checkout at all: the first call had
    recorded the tag already. *)
Lemma unchanged_tag_two_checkouts :
  (fst Scenario.tag_call_1 = None
   /\ fst Scenario.tag_call_2 = None
   /\ latestTag (fst (snd Scenario.tag_call_1)) = "v1.0"%string
   /\ fst (snd Scenario.tag_call_2) = fst (snd Scenario.tag_call_1)
   /\ checkouts (trace Scenario.flaky_checkout) = 0%nat
   /\ checkouts (trace (snd (snd Scenario.tag_call_2))) = 2%nat)
  /\
  (fst Scenario.healthy_call_2 = None
   /\ fst Scenario.healthy_call_3 = None
   /\ execs (trace (snd (snd Scenario.healthy_call_3)))
      = (execs (trace (snd (snd Scenario.healthy_call_1))) + 4)%nat
   /\ checkouts (trace (snd (snd Scenario.healthy_call_3)))
      = checkouts (trace (snd (snd Scenario.healthy_call_1)))).
Proof. repeat split; vm_compute; reflexivity. Qed.

(** The recorded tag is the remote's: no checkout.  A fresh repository
    and a remote that answers: one checkout over two calls. *)
Lemma idempotent_on_v1 :
  (checkoutLatestTag (Scenario.tagged "v1.0", Scenario.healthy_world)
   = (None,
      (Scenario.tagged "v1.0",
       ran (describe_inv (Scenario.tagged "v1.0"))
           (ran (fetch_inv (Scenario.tagged "v1.0")) Scenario.healthy_world)))
   /\ checkouts
        (trace (ran (describe_inv (Scenario.tagged "v1.0"))
                    (ran (fetch_inv (Scenario.tagged "v1.0"))
                         Scenario.healthy_world)))
      = checkouts (trace Scenario.healthy_world))
  /\
  (fst Scenario.healthy_call_1 = None
   /\ fst Scenario.healthy_call_2 = None
   /\ fst (snd Scenario.healthy_call_2) = fst (snd Scenario.healthy_call_1)
   /\ latestTag (fst (snd Scenario.healthy_call_1)) = "v1.0"%string
   /\ checkouts (trace (snd (snd Scenario.healthy_call_1)))
      = S (checkouts (trace Scenario.healthy_world))
   /\ checkouts (trace (snd (snd Scenario.healthy_call_2)))
      = checkouts (trace (snd (snd Scenario.healthy_call_1)))).
Proof.
  split.
  - apply (proj1 tag_convergence_is_idempotent
             (Scenario.tagged "v1.0") Scenario.healthy_world "v1.0"%string).
    + reflexivity.
    + discriminate.
    + reflexivity.
  - apply (proj2 tag_convergence_is_idempotent
             (Scenario.fresh Consts.latestTag) Scenario.healthy_world
             "v1.0"%string (10 * Second)
             (fst Scenario.healthy_call_1)
             (fst (snd Scenario.healthy_call_1))
             (snd (snd Scenario.healthy_call_1))
             (fst Scenario.healthy_call_2)
             (fst (snd Scenario.healthy_call_2))
             (snd (snd Scenario.healthy_call_2))).
    + reflexivity.
    + exact healthy_all_succeed.
    + apply healthy_latest_tag.
    + discriminate.
    + discriminate.
    + vm_compute. discriminate.
    + reflexivity.
    + vm_compute. discriminate.
    + reflexivity.
Defined.

(** A history on which the timestamp does advance: a failed call, a
    successful one, and a debounced one. *)
Example history_of_three_calls :
  map (fun l => (line_result l, Z.eqb (line_after l) (line_before l)))
      (history [OpPull; OpElapse Second; OpPull; OpPull]
               (Scenario.fresh "main",
                Scenario.world [StartFailed; StartFailed; StartFailed;
                                Exited 0 ""; Exited 0 "0a1b2c3"]))
  = [(Some Scenario.no_git, true); (None, true); (None, false); (None, true)].
Proof. vm_compute. reflexivity. Qed.
